(** * xiDIS deployment orchestrator ([deploy.py]): model and properties

    The script parses its command line, configures logging, loads a JSON
    fabric description, validates it against a JSON schema and then drives
    the phase functions registered in [PHASES].  The model below follows the
    script function by function.  Effects are made explicit: a computation
    returns the list of events it performed together with either a value or
    the exception that ended it. *)

From Stdlib Require Import String Ascii List ZArith NArith Bool.
From Stdlib Require Import DecimalString Permutation.
Import ListNotations.

Local Open Scope string_scope.
Local Open Scope list_scope.

(** ** Values *)

(** A document as [json.loads] returns it.  An object keeps its members in
    order, like the [dict] Python builds. *)
#[warnings="-register-all"]
Inductive json : Type :=
| JNull
| JBool (b : bool)
| JInt (n : Z)
| JFloat (literal : string)
| JStr (s : string)
| JArr (items : list json)
| JObj (members : list (string * json)).

(** [@dataclass class Context]: the config, the host limit and the dry-run
    flag. *)
Record Context : Type := mkContext {
  config : json;
  limit : option (list string);
  dry_run : bool
}.

(** The exceptions that can leave [main]. *)
Inductive exn : Type :=
| SystemExit (code : Z)            (* argparse's [parser.error] *)
| OSError (path : string)          (* [path.read_text()] failed *)
| JSONDecodeError                  (* [json.loads] failed *)
| ValidationError (msg : string)   (* raised by [load_config] *)
| TypeError                        (* comparing an index with a key *)
| KeyError (key : string).         (* [PHASES[args.phase]] *)

Inductive level : Type := DEBUG | INFO | WARNING.

(** [ctx.limit or "all"] is a string or a list of strings. *)
Inductive logarg : Type :=
| ArgStr (s : string)
| ArgList (l : list string).

(** What a run does, in order.  [Log] carries the fields of the
    [LogRecord]: level, format string and arguments. *)
Inductive event : Type :=
| SetupLogging (verbose : bool)    (* creates logs/<date>/deploy.jsonl and
                                      installs the two handlers *)
| Call (fn : string) (ctx : Context)
| Log (lvl : level) (msg : string) (args : list logarg).

(** ** The effect monad: a trace and a result *)

Inductive result (A : Type) : Type :=
| Ok (a : A)
| Raise (e : exn).
Arguments Ok {A} a.
Arguments Raise {A} e.

Definition M (A : Type) : Type := (list event * result A)%type.

Definition ret {A} (a : A) : M A := ([], Ok a).

Definition raise {A} (e : exn) : M A := ([], Raise e).

Definition emit (e : event) : M unit := ([e], Ok tt).

Definition bind {A B} (m : M A) (k : A -> M B) : M B :=
  match m with
  | (t, Ok a) => let (t', r) := k a in (t ++ t', r)
  | (t, Raise e) => (t, Raise e)
  end.

Notation "x <- m ;; k" := (bind m (fun x => k))
  (at level 61, m at next level, right associativity).
Notation "m ;; k" := (bind m (fun _ => k))
  (at level 61, right associativity).

Definition trace {A} (m : M A) : list event := fst m.
Definition outcome {A} (m : M A) : result A := snd m.

(** ** Configuration loading *)

(** One element of a [ValidationError.path]: an object key or an array
    index. *)
Inductive path_elem : Type :=
| Key (k : string)
| Idx (i : N).

(** The two fields of a jsonschema [ValidationError] that [load_config]
    reads. *)
Record SchemaError : Type := mkSchemaError {
  path : list path_elem;
  message : string
}.

(** What [load_config] takes from outside the script: the file system, the
    JSON parser and the validator of [CONFIG_SCHEMA] (config_schema.json is
    read at import time and is not part of the script). *)
Record World : Type := mkWorld {
  read_text : string -> option string;       (* [None]: the read raises *)
  json_loads : string -> option json;        (* [None]: the parser raises *)
  iter_errors : json -> list SchemaError     (* Draft7Validator(CONFIG_SCHEMA) *)
}.

(** [str(x)] for a path element. *)
Definition str_elem (x : path_elem) : string :=
  match x with
  | Key k => k
  | Idx i => NilEmpty.string_of_uint (N.to_uint i)
  end.

(** [x == y] on path elements; a key never equals an index. *)
Definition elem_eqb (x y : path_elem) : bool :=
  match x, y with
  | Key a, Key b => String.eqb a b
  | Idx i, Idx j => N.eqb i j
  | _, _ => false
  end.

(** [x < y] on path elements; [None] is Python's TypeError for a key
    against an index. *)
Definition elem_lt (x y : path_elem) : option bool :=
  match x, y with
  | Key a, Key b => Some (String.ltb a b)
  | Idx i, Idx j => Some (N.ltb i j)
  | _, _ => None
  end.

(** [p < q] on paths (deques): the first unequal pair decides, a proper
    prefix is smaller. *)
Fixpoint path_lt (p q : list path_elem) : option bool :=
  match p, q with
  | [], [] => Some false
  | [], _ :: _ => Some true
  | _ :: _, [] => Some false
  | x :: p', y :: q' => if elem_eqb x y then path_lt p' q' else elem_lt x y
  end.

(** Stable insertion by path: [e] stood before every element of [l] and goes
    after the elements strictly smaller than it only. *)
Fixpoint insert_by_path (e : SchemaError) (l : list SchemaError)
  : option (list SchemaError) :=
  match l with
  | [] => Some [e]
  | x :: l' =>
      match path_lt (path x) (path e) with
      | None => None
      | Some true =>
          match insert_by_path e l' with
          | Some r => Some (x :: r)
          | None => None
          end
      | Some false => Some (e :: l)
      end
  end.

(** [sorted(errors, key=lambda e: e.path)].  Python's sort is stable and
    uses [<] only.  It makes other comparisons than an insertion sort does;
    the two agree on every list whose paths are pairwise comparable, which
    holds for paths into one document.  [None] is the TypeError of a
    comparison. *)
Fixpoint sorted_by_path (errors : list SchemaError) : option (list SchemaError) :=
  match errors with
  | [] => Some []
  | e :: rest =>
      match sorted_by_path rest with
      | Some s => insert_by_path e s
      | None => None
      end
  end.

(** [f"{'/'.join(map(str, e.path))}: {e.message}"] *)
Definition format_error (e : SchemaError) : string :=
  String.concat "/" (map str_elem (path e)) ++ ": " ++ message e.

(** [load_config(path)].  A failed read is reported as OSError and a failed
    parse as JSONDecodeError; the model does not tell apart the other
    exceptions these two calls can raise (a decoding error of the read, a
    ValueError or RecursionError of the parser). *)
Definition load_config (w : World) (p : string) : M json :=
  match read_text w p with
  | None => raise (OSError p)
  | Some text =>
      match json_loads w text with
      | None => raise JSONDecodeError
      | Some data =>
          match sorted_by_path (iter_errors w data) with
          | None => raise TypeError
          | Some [] => ret data
          | Some errors =>
              let msgs := map format_error errors in
              raise (ValidationError (String.concat "; " msgs))
          end
      end
  end.

(** ** Logging *)

(** [setup_logging(verbose)]: it creates logs/<date>/, opens deploy.jsonl
    and installs the two handlers.  The model covers the runs in which the
    directory and the file can be created; the OSError of a failing [mkdir]
    or [open] is not modelled. *)
Definition setup_logging (verbose : bool) : M unit :=
  emit (SetupLogging verbose).

Definition logging_info (msg : string) (args : list logarg) : M unit :=
  emit (Log INFO msg args).

Definition logging_warning (msg : string) (args : list logarg) : M unit :=
  emit (Log WARNING msg args).

(** ** Pipeline skeleton *)

(** A phase function: its [__name__] and its body. *)
Record pyfunc : Type := mkFunc {
  fn_name : string;
  fn_body : Context -> M unit
}.

(** [fn(ctx)] *)
Definition call (fn : pyfunc) (ctx : Context) : M unit :=
  emit (Call (fn_name fn) ctx) ;; fn_body fn ctx.

(** [ctx.limit or "all"]: [None] and the empty list are falsy. *)
Definition limit_or_all (ctx : Context) : logarg :=
  match limit ctx with
  | None => ArgStr "all"
  | Some [] => ArgStr "all"
  | Some l => ArgList l
  end.

Definition phase_precheck : pyfunc :=
  mkFunc "phase_precheck"
    (fun ctx => logging_info "precheck phase for hosts: %s" [limit_or_all ctx]).

Definition phase_storage : pyfunc :=
  mkFunc "phase_storage" (fun ctx => logging_info "storage_export phase" []).

Definition phase_agg : pyfunc :=
  mkFunc "phase_agg" (fun ctx => logging_info "aggregator_connect phase" []).

Definition phase_raid : pyfunc :=
  mkFunc "phase_raid" (fun ctx => logging_info "opus_raid phase" []).

Definition phase_reexport : pyfunc :=
  mkFunc "phase_reexport" (fun ctx => logging_info "reexport phase" []).

Definition phase_verify : pyfunc :=
  mkFunc "phase_verify" (fun ctx => logging_info "verify phase" []).

(** A [dict] from phase name to function, in insertion order. *)
Definition registry : Type := list (string * pyfunc).

Definition PHASES : registry :=
  [ ("precheck", phase_precheck);
    ("storage", phase_storage);
    ("agg", phase_agg);
    ("raid", phase_raid);
    ("reexport", phase_reexport);
    ("verify", phase_verify) ].

Definition keys (d : registry) : list string := map fst d.
Definition values (d : registry) : list pyfunc := map snd d.

(** [d[k]] *)
Fixpoint getitem (d : registry) (k : string) : M pyfunc :=
  match d with
  | [] => raise (KeyError k)
  | (k', f) :: d' => if String.eqb k k' then ret f else getitem d' k
  end.

(** ** Command line *)

(** The options as argparse has collected them from [argv], before it checks
    [required] and [choices]; [-h] and [--help] are not among them. *)
Record Argv : Type := mkArgv {
  opt_config : option string;
  opt_limit : option string;
  opt_phase : option string;
  flag_dry_run : bool;
  flag_verbose : bool;
  flag_teardown : bool
}.

Record Namespace : Type := mkNamespace {
  ns_config : string;
  ns_limit : option string;
  ns_phase : option string;
  ns_dry_run : bool;
  ns_verbose : bool;
  ns_teardown : bool
}.

Definition mem (s : string) (l : list string) : bool :=
  existsb (String.eqb s) l.

(** [parse_args(argv)], for the registry whose keys are the choices of
    [--phase]: a phase outside the choices or a missing [--config] ends in
    [parser.error], that is SystemExit(2).  The usage text [parser.error]
    writes to stderr is not an event of the trace, and a command line with
    [-h] or [--help], on which argparse prints the help and exits, is not
    an [Argv]. *)
Definition parse_args_with (phases : registry) (argv : Argv) : M Namespace :=
  match opt_phase argv with
  | Some p => if mem p (keys phases) then ret tt else raise (SystemExit 2)
  | None => ret tt
  end ;;
  match opt_config argv with
  | None => raise (SystemExit 2)
  | Some c =>
      ret (mkNamespace c (opt_limit argv) (opt_phase argv)
             (flag_dry_run argv) (flag_verbose argv) (flag_teardown argv))
  end.

Definition parse_args : Argv -> M Namespace := parse_args_with PHASES.

(** ** Main entry point *)

(** [s.split(",")] *)
Fixpoint split_on (sep : ascii) (s : string) : list string :=
  match s with
  | EmptyString => [EmptyString]
  | String c rest =>
      if Ascii.eqb c sep then EmptyString :: split_on sep rest
      else match split_on sep rest with
           | [] => [String c EmptyString]
           | h :: t => String c h :: t
           end
  end.

Definition comma : ascii := ","%char.

(** [args.limit.split(",") if args.limit else None]: [None] and the empty
    string are falsy. *)
Definition limit_of (l : option string) : option (list string) :=
  match l with
  | None => None
  | Some EmptyString => None
  | Some s => Some (split_on comma s)
  end.

(** [for fn in fns: fn(ctx)] *)
Fixpoint for_each (fns : list pyfunc) (ctx : Context) : M unit :=
  match fns with
  | [] => ret tt
  | fn :: rest => call fn ctx ;; for_each rest ctx
  end.

(** The body of [main] after [parse_args]. *)
Definition run_with (phases : registry) (w : World) (args : Namespace) : M unit :=
  setup_logging (ns_verbose args) ;;
  cfg <- load_config w (ns_config args) ;;
  let ctx := mkContext cfg (limit_of (ns_limit args)) (ns_dry_run args) in
  match ns_phase args with
  | Some (String c p) =>
      fn <- getitem phases (String c p) ;;
      call fn ctx
  | _ => for_each (values phases) ctx
  end ;;
  if ns_teardown args
  then logging_warning "teardown mode is not yet implemented" []
  else ret tt.

(** [main(argv)], for a registry of phase functions. *)
Definition main_with (phases : registry) (w : World) (argv : Argv) : M unit :=
  args <- parse_args_with phases argv ;;
  run_with phases w args.

(** [main(argv)] of the script: the registry is [PHASES]. *)
Definition main : World -> Argv -> M unit := main_with PHASES.

(** ** What a trace shows *)

(** The functions called, in order. *)
Definition calls (t : list event) : list string :=
  flat_map (fun e => match e with Call fn _ => [fn] | _ => [] end) t.

(** The contexts the functions were called with. *)
Definition contexts (t : list event) : list Context :=
  flat_map (fun e => match e with Call _ ctx => [ctx] | _ => [] end) t.

(** The records logged: level, format string and arguments. *)
Definition records (t : list event) : list (level * string * list logarg) :=
  flat_map (fun e => match e with Log l m a => [(l, m, a)] | _ => [] end) t.

(** The first word of a message, up to the first space. *)
Fixpoint first_word (s : string) : string :=
  match s with
  | EmptyString => EmptyString
  | String c rest =>
      if Ascii.eqb c " "%char then EmptyString else String c (first_word rest)
  end.

(** The phases that announced themselves: every phase function logs one INFO
    record that starts with the name of its phase. *)
Definition announced (t : list event) : list string :=
  flat_map (fun e => match e with
                     | Log INFO m _ => [first_word m]
                     | _ => []
                     end) t.


Definition is_raise {A} (r : result A) : bool :=
  match r with
  | Raise _ => true
  | Ok _ => false
  end.

(** [s] occurs in [t]. *)
Definition occurs_in (s t : string) : Prop :=
  exists a b, t = (a ++ s ++ b)%string.

(** A string occurs somewhere in a document, as a key or as a string
    value. *)
Fixpoint mentions (s : string) (j : json) : bool :=
  match j with
  | JStr v => String.eqb s v
  | JArr items => existsb (mentions s) items
  | JObj members =>
      existsb (fun kv => String.eqb s (fst kv) || mentions s (snd kv)) members
  | _ => false
  end.

(** Every pair of paths can be compared without a TypeError. *)
Definition comparable (errs : list SchemaError) : Prop :=
  forall a b, In a errs -> In b errs -> path_lt (path a) (path b) <> None.

(** ** The order of phases in the words of the specification *)

Inductive direction : Type := Forward | Teardown.

Definition spec_forward_order : list string :=
  ["precheck"; "storage_export"; "aggregator_connect"; "opus_raid";
   "reexport"; "verify"].

(** The teardown order as the specification lists it. *)
Definition spec_teardown_order : list string :=
  ["reexport"; "opus_raid"; "aggregator_connect"; "storage_export"].

Definition spec_ordered_phases (d : direction) : list string :=
  match d with
  | Forward => spec_forward_order
  | Teardown => spec_teardown_order
  end.

(** [--teardown] maps to the teardown direction. *)
Definition direction_of (argv : Argv) : direction :=
  if flag_teardown argv then Teardown else Forward.

(** ** Command lines that differ in one flag *)



Definition set_verbose (b : bool) (argv : Argv) : Argv :=
  mkArgv (opt_config argv) (opt_limit argv) (opt_phase argv)
         (flag_dry_run argv) b (flag_teardown argv).

(** ** The parts of a run *)

(** The command lines that [parse_args] accepts. *)
Definition accepted (phases : registry) (argv : Argv) : Prop :=
  opt_config argv <> None /\
  match opt_phase argv with
  | Some p => mem p (keys phases) = true
  | None => True
  end.

(** The warning [main] logs last when [--teardown] is given. *)
Definition teardown_warning : M unit :=
  logging_warning "teardown mode is not yet implemented" [].

(** The context [main] builds. *)
Definition context_of (cfg : json) (argv : Argv) : Context :=
  mkContext cfg (limit_of (opt_limit argv)) (flag_dry_run argv).

(** The dispatch of [main]: the selected function or every function. *)
Definition dispatch (phases : registry) (p : option string) (ctx : Context)
  : M unit :=
  match p with
  | Some (String c p) => fn <- getitem phases (String c p) ;; call fn ctx
  | _ => for_each (values phases) ctx
  end.

(** The functions a run dispatches to: the one selected, or all of them in
    the order of the registry. *)
Inductive selection : option string -> list pyfunc -> Prop :=
| select_all : selection None (values PHASES)
| select_one k f : In (k, f) PHASES -> selection (Some k) [f].

(** The functions a selector picks, as a function. *)
Definition selected (p : option string) : list pyfunc :=
  match p with
  | None => values PHASES
  | Some k =>
      match outcome (getitem PHASES k) with
      | Ok f => [f]
      | Raise _ => []
      end
  end.

(** The trace of a run that loaded its config and dispatched to [fns]. *)
Definition run_trace (v : bool) (fns : list pyfunc) (ctx : Context)
  (teardown : bool) : list event :=
  SetupLogging v :: trace (for_each fns ctx)
    ++ (if teardown
        then [Log WARNING "teardown mode is not yet implemented" []]
        else []).

(** A run ends in one of three ways: the parser rejects the command line,
    the config does not load, or the selected phases run to the end. *)
Inductive run_shape (w : World) (argv : Argv) : M unit -> Prop :=
| shape_rejected :
    ~ accepted PHASES argv ->
    run_shape w argv ([], Raise (SystemExit 2))
| shape_not_loaded c e :
    opt_config argv = Some c ->
    accepted PHASES argv ->
    outcome (load_config w c) = Raise e ->
    run_shape w argv ([SetupLogging (flag_verbose argv)], Raise e)
| shape_ran c cfg fns :
    opt_config argv = Some c ->
    accepted PHASES argv ->
    outcome (load_config w c) = Ok cfg ->
    selection (opt_phase argv) fns ->
    run_shape w argv
      (run_trace (flag_verbose argv) fns (context_of cfg argv)
         (flag_teardown argv), Ok tt).

(** ** The root logger *)

(** Where a handler writes: the console stream or logs/<date>/deploy.jsonl. *)
Inductive sink : Type := Console | JsonlFile.

(** A handler of the root logger: its stream and its numeric level. *)
Record Handler : Type := mkHandler {
  sink_of : sink;
  handler_level : Z
}.

(** The root logger: its level and its handlers, in the order they were
    added. *)
Record Logger : Type := mkLogger {
  logger_level : Z;
  handlers : list Handler
}.

(** [logging.DEBUG], [logging.INFO], [logging.WARNING] *)
Definition levelno (l : level) : Z :=
  match l with
  | DEBUG => 10
  | INFO => 20
  | WARNING => 30
  end.

Definition NOTSET : Z := 0.

(** The root logger of a fresh process: level WARNING, no handler. *)
Definition fresh_root : Logger := mkLogger (levelno WARNING) [].

(** What [setup_logging(verbose)] does to the root logger: it sets the level
    and adds a console handler and a [JsonlHandler]. *)
Definition configure (verbose : bool) (root : Logger) : Logger :=
  mkLogger
    (if verbose then levelno DEBUG else levelno INFO)
    (handlers root
       ++ [ mkHandler Console (if negb verbose then levelno INFO else levelno DEBUG);
            mkHandler JsonlFile (levelno DEBUG) ]).

(** [logging.basicConfig()], which [logging.info] and [logging.warning] call
    when the root logger has no handler: it adds a stream handler and leaves
    the level alone. *)
Definition basicConfig (root : Logger) : Logger :=
  match handlers root with
  | [] => mkLogger (logger_level root) [mkHandler Console NOTSET]
  | _ :: _ => root
  end.

(** The handlers a record of level [lvl] is handed to: none if the logger
    is not enabled for the level, else every handler whose level the record
    reaches. *)
Definition deliver (root : Logger) (lvl : level) : list sink :=
  if (logger_level root <=? levelno lvl)%Z
  then map sink_of
         (filter (fun h => (handler_level h <=? levelno lvl)%Z) (handlers root))
  else [].


(** What the handlers emit for a trace: each record with the stream it went
    to, in order. *)
Fixpoint emissions (root : Logger) (t : list event)
  : list (sink * (level * string * list logarg)) :=
  match t with
  | [] => []
  | SetupLogging v :: t' => emissions (configure v root) t'
  | Log l m a :: t' =>
      map (fun s => (s, (l, m, a))) (deliver (basicConfig root) l)
        ++ emissions (basicConfig root) t'
  | Call _ _ :: t' => emissions root t'
  end.


(** ** More observations *)

(** The character occurs in the string. *)
Fixpoint contains (c : ascii) (s : string) : bool :=
  match s with
  | EmptyString => false
  | String x rest => Ascii.eqb x c || contains c rest
  end.

(** How often the character occurs in the string. *)
Fixpoint count_char (c : ascii) (s : string) : nat :=
  match s with
  | EmptyString => 0
  | String x rest => (if Ascii.eqb x c then 1 else 0) + count_char c rest
  end.

(** No error stands before one with a strictly smaller path. *)
Fixpoint ordered (l : list SchemaError) : Prop :=
  match l with
  | [] => True
  | a :: l' =>
      match l' with
      | [] => True
      | b :: _ => path_lt (path b) (path a) = Some false /\ ordered l'
      end
  end.

(** ** Sample inputs *)

Module Sample.

(** A fabric description with two hosts. *)
Definition fabric : json :=
  JObj [ ("storage_nodes", JArr [JObj [("name", JStr "sn1")]]);
         ("aggregators", JArr [JObj [("name", JStr "agg1")]]) ].

Definition fabric_text : string := "<fabric.json>".

(** A world with the one file fabric.json, which parses to [fabric] and
    satisfies the schema. *)
Definition world : World :=
  mkWorld
    (fun p => if String.eqb p "fabric.json" then Some fabric_text else None)
    (fun t => if String.eqb t fabric_text then Some fabric else None)
    (fun _ => []).

(** The same file under a schema it violates in three places. *)
Definition violations : list SchemaError :=
  [ mkSchemaError [Key "storage_nodes"; Idx 0] "'nvme' is a required property";
    mkSchemaError [Key "aggregators"; Idx 0] "'mgmt_ip' is a required property";
    mkSchemaError [] "'raid' is a required property" ].

Definition strict_world : World :=
  mkWorld (read_text world) (json_loads world) (fun _ => violations).

Definition argv (lim phase : option string) (dry teardown : bool) : Argv :=
  mkArgv (Some "fabric.json") lim phase dry false teardown.

End Sample.

(** ** Laws of the effect monad *)

Lemma bind_ret_l {A B} (a : A) (k : A -> M B) : bind (ret a) k = k a.
Proof.
  unfold bind, ret. destruct (k a) as [t r]. reflexivity.
Qed.

Lemma bind_ret_unit (m : M unit) : (m ;; ret tt) = m.
Proof.
  destruct m as [t [[]|e]]; simpl; [rewrite app_nil_r|]; reflexivity.
Qed.


Lemma bind_ext {A B} (m : M A) (k1 k2 : A -> M B) :
  (forall a, k1 a = k2 a) -> bind m k1 = bind m k2.
Proof.
  intros E. destruct m as [t [a|e]]; simpl; [rewrite E|]; reflexivity.
Qed.

(** ** Observations distribute over concatenation *)



(** ** Loading and parsing *)

Lemma load_config_trace w p : trace (load_config w p) = [].
Proof.
  unfold load_config.
  destruct (read_text w p) as [text|]; [|reflexivity].
  destruct (json_loads w text) as [data|]; [|reflexivity].
  destruct (sorted_by_path (iter_errors w data)) as [[|e l]|]; reflexivity.
Qed.

Lemma load_config_ok w p cfg :
  outcome (load_config w p) = Ok cfg -> load_config w p = ([], Ok cfg).
Proof.
  intros H. pose proof (load_config_trace w p) as T.
  destruct (load_config w p) as [t r]. simpl in *. subst. reflexivity.
Qed.

Lemma load_config_raise w p e :
  outcome (load_config w p) = Raise e -> load_config w p = ([], Raise e).
Proof.
  intros H. pose proof (load_config_trace w p) as T.
  destruct (load_config w p) as [t r]. simpl in *. subst. reflexivity.
Qed.

Lemma parse_args_accepts phases argv c :
  opt_config argv = Some c ->
  match opt_phase argv with
  | Some p => mem p (keys phases) = true
  | None => True
  end ->
  parse_args_with phases argv =
  ret (mkNamespace c (opt_limit argv) (opt_phase argv)
         (flag_dry_run argv) (flag_verbose argv) (flag_teardown argv)).
Proof.
  intros Hc Hp. unfold parse_args_with. rewrite Hc.
  destruct (opt_phase argv) as [p|]; [rewrite Hp|]; reflexivity.
Qed.

(** The keys of [PHASES], one by one. *)
Lemma phase_choice p :
  mem p (keys PHASES) = true ->
  p = "precheck" \/ p = "storage" \/ p = "agg" \/ p = "raid" \/
  p = "reexport" \/ p = "verify".
Proof.
  unfold mem. rewrite existsb_exists. intros [k [Hin Hk]].
  apply String.eqb_eq in Hk. subst k. simpl in Hin.
  repeat (destruct Hin as [Hin|Hin]; [subst; tauto|]). contradiction.
Qed.

(** Case analysis on an accepted phase name. *)
Ltac each_phase H :=
  apply phase_choice in H;
  repeat (destruct H as [H|H]); subst.

(** ** The teardown flag *)




(** ** The shape of a run *)

Lemma main_accepted phases w argv c :
  opt_config argv = Some c ->
  match opt_phase argv with
  | Some p => mem p (keys phases) = true
  | None => True
  end ->
  main_with phases w argv =
  run_with phases w
    (mkNamespace c (opt_limit argv) (opt_phase argv)
       (flag_dry_run argv) (flag_verbose argv) (flag_teardown argv)).
Proof.
  intros Hc Hp. unfold main_with.
  rewrite (parse_args_accepts phases argv c Hc Hp). apply bind_ret_l.
Qed.

Lemma main_rejected phases w argv :
  ~ accepted phases argv ->
  main_with phases w argv = ([], Raise (SystemExit 2)).
Proof.
  intros H. unfold main_with, parse_args_with.
  destruct (opt_phase argv) as [p|] eqn:Ep.
  - destruct (mem p (keys phases)) eqn:Hp; [|reflexivity].
    destruct (opt_config argv) as [c|] eqn:Ec; [|reflexivity].
    exfalso. apply H. split; [rewrite Ec; discriminate | rewrite Ep; exact Hp].
  - destruct (opt_config argv) as [c|] eqn:Ec; [|reflexivity].
    exfalso. apply H. split; [rewrite Ec; discriminate | rewrite Ep; exact I].
Qed.

Lemma run_with_loaded phases w args cfg :
  outcome (load_config w (ns_config args)) = Ok cfg ->
  run_with phases w args =
  (setup_logging (ns_verbose args) ;;
   dispatch phases (ns_phase args)
     (mkContext cfg (limit_of (ns_limit args)) (ns_dry_run args)) ;;
   if ns_teardown args then teardown_warning else ret tt).
Proof.
  intros H. apply load_config_ok in H. unfold run_with. rewrite H.
  apply bind_ext; intros _.
  change (@pair (list event) (result json) [] (Ok cfg)) with (ret cfg).
  rewrite bind_ret_l. reflexivity.
Qed.

Lemma run_with_not_loaded phases w args e :
  outcome (load_config w (ns_config args)) = Raise e ->
  run_with phases w args = ([SetupLogging (ns_verbose args)], Raise e).
Proof.
  intros H. apply load_config_raise in H. unfold run_with. rewrite H.
  reflexivity.
Qed.

Lemma main_shape w argv : run_shape w argv (main w argv).
Proof.
  unfold main.
  destruct (opt_config argv) as [c|] eqn:Ec.
  2:{ rewrite main_rejected; [apply shape_rejected|];
      intros [H _]; apply H; exact Ec. }
  destruct (opt_phase argv) as [p|] eqn:Ep.
  - destruct (mem p (keys PHASES)) eqn:Hp.
    2:{ rewrite main_rejected; [apply shape_rejected|];
        intros [_ H]; rewrite Ep in H; congruence. }
    assert (Hacc : accepted PHASES argv)
      by (split; [rewrite Ec; discriminate | rewrite Ep; exact Hp]).
    rewrite (main_accepted PHASES w argv c Ec) by (rewrite Ep; exact Hp).
    destruct (outcome (load_config w c)) as [cfg|e] eqn:L.
    + rewrite (run_with_loaded _ _ _ cfg) by exact L.
      cbn [ns_verbose ns_phase ns_limit ns_dry_run ns_teardown].
      fold (context_of cfg argv).
      assert (S : exists f, In (p, f) PHASES /\
                dispatch PHASES (Some p) (context_of cfg argv)
                = for_each [f] (context_of cfg argv)).
      { each_phase Hp;
          (eexists; split; [|unfold dispatch, for_each; simpl getitem;
                               rewrite bind_ret_l, bind_ret_unit; reflexivity]);
          simpl; tauto. }
      destruct S as [f [Hin Hd]]. rewrite Ep, Hd.
      replace (setup_logging (flag_verbose argv);;
               for_each [f] (context_of cfg argv);;
               (if flag_teardown argv then teardown_warning else ret tt))
        with (run_trace (flag_verbose argv) [f] (context_of cfg argv)
                (flag_teardown argv), @Ok unit tt).
      * eapply shape_ran; eauto. rewrite Ep. constructor. exact Hin.
      * clear Hd. unfold run_trace. each_phase Hp; simpl in Hin;
          repeat (destruct Hin as [Hin|Hin];
                  [inversion Hin; subst; clear Hin|]);
          try contradiction; try discriminate;
          destruct (flag_teardown argv); reflexivity.
    + rewrite (run_with_not_loaded _ _ _ e) by exact L.
      eapply shape_not_loaded; eauto.
  - assert (Hacc : accepted PHASES argv)
      by (split; [rewrite Ec; discriminate | rewrite Ep; exact I]).
    rewrite (main_accepted PHASES w argv c Ec) by (rewrite Ep; exact I).
    destruct (outcome (load_config w c)) as [cfg|e] eqn:L.
    + rewrite (run_with_loaded _ _ _ cfg) by exact L.
      cbn [ns_verbose ns_phase ns_limit ns_dry_run ns_teardown].
      fold (context_of cfg argv). rewrite Ep.
      replace (setup_logging (flag_verbose argv);;
               dispatch PHASES None (context_of cfg argv);;
               (if flag_teardown argv then teardown_warning else ret tt))
        with (run_trace (flag_verbose argv) (values PHASES)
                (context_of cfg argv) (flag_teardown argv), @Ok unit tt)
        by (destruct (flag_teardown argv); reflexivity).
      eapply shape_ran; eauto. rewrite Ep. constructor.
    + rewrite (run_with_not_loaded _ _ _ e) by exact L.
      eapply shape_not_loaded; eauto.
Qed.

Lemma selection_selected p fns : selection p fns -> fns = selected p.
Proof.
  intros [|k f Hin]; [reflexivity|].
  simpl in Hin.
  repeat (destruct Hin as [Hin|Hin]; [inversion Hin; subst; reflexivity|]).
  contradiction.
Qed.

Lemma accepted_dec phases argv : {accepted phases argv} + {~ accepted phases argv}.
Proof.
  unfold accepted.
  destruct (opt_config argv) as [c|].
  - destruct (opt_phase argv) as [p|].
    + destruct (mem p (keys phases)).
      * left. split; [discriminate | reflexivity].
      * right. intros [_ H]. discriminate.
    + left. split; [discriminate | exact I].
  - right. intros [H _]. apply H. reflexivity.
Qed.

(** A run whose config loads: its whole trace and its result. *)
Lemma main_loaded w argv c cfg :
  opt_config argv = Some c ->
  accepted PHASES argv ->
  outcome (load_config w c) = Ok cfg ->
  main w argv =
  (run_trace (flag_verbose argv) (selected (opt_phase argv))
     (context_of cfg argv) (flag_teardown argv), Ok tt).
Proof.
  intros Hc Hacc L.
  destruct (main_shape w argv) as [Hn | c' e Hc' _ L' | c' cfg' fns Hc' _ L' S].
  - contradiction.
  - congruence.
  - assert (c' = c) by congruence. subst c'.
    assert (cfg' = cfg) by congruence. subst cfg'.
    rewrite (selection_selected _ _ S). reflexivity.
Qed.

(** A run whose config does not load: logging is set up, nothing else. *)
Lemma main_not_loaded w argv c e :
  opt_config argv = Some c ->
  accepted PHASES argv ->
  outcome (load_config w c) = Raise e ->
  main w argv = ([SetupLogging (flag_verbose argv)], Raise e).
Proof.
  intros Hc Hacc L.
  destruct (main_shape w argv) as [Hn | c' e' Hc' _ L' | c' cfg' fns Hc' _ L' S].
  - contradiction.
  - assert (c' = c) by congruence. subst c'.
    assert (e' = e) by congruence. subst e'. reflexivity.
  - congruence.
Qed.

Lemma accepted_no_selector argv c :
  opt_config argv = Some c -> opt_phase argv = None -> accepted PHASES argv.
Proof.
  intros Hc Hp. split; [rewrite Hc; discriminate | rewrite Hp; exact I].
Qed.

(** The keys of the registry are pairwise distinct, so a key selects one
    function. *)
Lemma PHASES_keys_NoDup : NoDup (keys PHASES).
Proof.
  simpl. repeat constructor; simpl; intuition discriminate.
Qed.

Lemma PHASES_keys :
  keys PHASES = ["precheck"; "storage"; "agg"; "raid"; "reexport"; "verify"].
Proof. reflexivity. Qed.

(** The calls of a run are the selected functions, in order. *)
Lemma calls_run_trace p v ctx td :
  calls (run_trace v (selected p) ctx td) = map fn_name (selected p).
Proof.
  destruct p as [k|]; [|destruct td; reflexivity].
  destruct (mem k (keys PHASES)) eqn:Hk.
  - each_phase Hk; destruct td; reflexivity.
  - assert (E : selected (Some k) = []).
    { unfold selected. simpl. unfold mem in Hk. simpl in Hk.
      repeat match goal with
             | H : (?a || ?b)%bool = false |- _ =>
                 apply orb_false_iff in H; destruct H
             end.
      repeat match goal with
             | H : (k =? _)%string = false |- _ => rewrite H; clear H
             end.
      reflexivity. }
    rewrite E. destruct td; reflexivity.
Qed.


(** ** Sorting the schema errors *)

Lemma insert_by_path_perm e l r :
  insert_by_path e l = Some r -> Permutation (e :: l) r.
Proof.
  revert r. induction l as [|x l IH]; simpl; intros r H.
  - inversion H. apply Permutation_refl.
  - destruct (path_lt (path x) (path e)) as [[|]|]; try discriminate.
    + destruct (insert_by_path e l) as [r'|]; [|discriminate].
      inversion H; subst. eapply perm_trans; [apply perm_swap|].
      apply perm_skip, IH. reflexivity.
    + inversion H. apply Permutation_refl.
Qed.

Lemma insert_by_path_total e l :
  (forall x, In x l -> path_lt (path x) (path e) <> None) ->
  exists r, insert_by_path e l = Some r.
Proof.
  induction l as [|x l IH]; simpl; intros H; [eexists; reflexivity|].
  destruct (path_lt (path x) (path e)) as [[|]|] eqn:E.
  - destruct IH as [r Hr]; [intros y Hy; apply H; right; exact Hy|].
    rewrite Hr. eexists; reflexivity.
  - eexists; reflexivity.
  - exfalso. apply (H x); [left; reflexivity | exact E].
Qed.

Lemma sorted_by_path_perm l r :
  sorted_by_path l = Some r -> Permutation l r.
Proof.
  revert r. induction l as [|e l IH]; simpl; intros r H.
  - inversion H. constructor.
  - destruct (sorted_by_path l) as [s|]; [|discriminate].
    eapply perm_trans; [apply perm_skip, IH; reflexivity|].
    apply insert_by_path_perm. exact H.
Qed.

(** On pairwise comparable paths the sort raises no TypeError. *)
Lemma sorted_by_path_total l :
  comparable l -> exists r, sorted_by_path l = Some r.
Proof.
  induction l as [|e l IH]; simpl; intros H; [eexists; reflexivity|].
  destruct IH as [s Hs].
  { intros a b Ha Hb. apply H; right; assumption. }
  rewrite Hs. apply insert_by_path_total.
  intros x Hx. apply H; [right | left; reflexivity].
  apply Permutation_in with (l := s); [|exact Hx].
  apply Permutation_sym, sorted_by_path_perm. exact Hs.
Qed.

(** *** Path order *)

Lemma elem_eqb_sym x y : elem_eqb x y = elem_eqb y x.
Proof.
  destruct x, y; simpl; try reflexivity;
    [apply String.eqb_sym | apply N.eqb_sym].
Qed.

Lemma elem_eqb_refl x : elem_eqb x x = true.
Proof.
  destruct x; simpl; [apply String.eqb_refl | apply N.eqb_refl].
Qed.

Lemma string_ltb_asym a b : String.ltb a b = true -> String.ltb b a = false.
Proof.
  unfold String.ltb. rewrite (String.compare_antisym b a).
  destruct (String.compare a b); simpl; congruence.
Qed.

Lemma elem_lt_asym x y : elem_lt x y = Some true -> elem_lt y x = Some false.
Proof.
  destruct x, y; simpl; try discriminate; intros H; inversion H as [E]; f_equal.
  - apply string_ltb_asym. exact E.
  - apply N.ltb_lt in E. apply N.ltb_ge. apply N.lt_le_incl. exact E.
Qed.

Lemma path_lt_asym p q : path_lt p q = Some true -> path_lt q p = Some false.
Proof.
  revert q. induction p as [|x p IH]; intros [|y q]; simpl;
    try discriminate; try reflexivity.
  rewrite (elem_eqb_sym y x).
  destruct (elem_eqb x y); [apply IH | apply elem_lt_asym].
Qed.

Lemma path_lt_irrefl p : path_lt p p = Some false.
Proof.
  induction p as [|x p IH]; simpl; [reflexivity|].
  rewrite elem_eqb_refl. exact IH.
Qed.

Lemma insert_by_path_ordered e l r :
  insert_by_path e l = Some r -> ordered l -> ordered r.
Proof.
  revert r. induction l as [|x l IH]; intros r H Hl.
  - inversion H. exact I.
  - simpl in H.
    destruct (path_lt (path x) (path e)) as [[|]|] eqn:E; try discriminate.
    + destruct (insert_by_path e l) as [r'|] eqn:Er; [|discriminate].
      inversion H; subst r. clear H.
      assert (Hl' : ordered l) by (destruct l; [exact I | apply Hl]).
      specialize (IH r' eq_refl Hl').
      destruct l as [|y l].
      * inversion Er; subst r'. simpl. split; [|exact I].
        apply path_lt_asym. exact E.
      * simpl in Er. destruct Hl as [Hyx _].
        destruct (path_lt (path y) (path e)) as [[|]|]; try discriminate.
        -- destruct (insert_by_path e l) as [r''|]; [|discriminate].
           inversion Er; subst r'. split; [exact Hyx | exact IH].
        -- inversion Er; subst r'. split; [|exact IH].
           apply path_lt_asym. exact E.
    + inversion H; subst r. split; [exact E | exact Hl].
Qed.

(** The result of the sort is in path order. *)
Lemma sorted_by_path_ordered l r :
  sorted_by_path l = Some r -> ordered r.
Proof.
  revert r. induction l as [|e l IH]; simpl; intros r H.
  - inversion H. exact I.
  - destruct (sorted_by_path l) as [s|]; [|discriminate].
    apply (insert_by_path_ordered e s r H). apply IH. reflexivity.
Qed.

(** ** Joined messages *)

Lemma append_empty_r (s : string) : (s ++ "")%string = s.
Proof.
  induction s as [|c s IH]; simpl; [|rewrite IH]; reflexivity.
Qed.

Lemma append_assoc (a b c : string) :
  ((a ++ b) ++ c)%string = (a ++ (b ++ c))%string.
Proof.
  induction a as [|x a IH]; simpl; [|rewrite IH]; reflexivity.
Qed.

(** Every joined item can be read in the joined string. *)
Lemma occurs_in_concat sep x l :
  In x l -> occurs_in x (String.concat sep l).
Proof.
  induction l as [|y l IH]; intros H; [destruct H|].
  destruct H as [->|H].
  - destruct l as [|z l].
    + exists "", "". simpl. rewrite append_empty_r. reflexivity.
    + exists "", (sep ++ String.concat sep (z :: l))%string. reflexivity.
  - destruct l as [|z l]; [destruct H|].
    destruct (IH H) as [a [b E]].
    exists (y ++ sep ++ a)%string, b.
    change (String.concat sep (y :: z :: l))
      with (y ++ sep ++ String.concat sep (z :: l))%string.
    rewrite E, !append_assoc. reflexivity.
Qed.

(** A document with schema violations: [load_config] raises one
    ValidationError whose message joins every violation, in path order. *)
Lemma load_config_invalid w p text data :
  read_text w p = Some text ->
  json_loads w text = Some data ->
  iter_errors w data <> [] ->
  comparable (iter_errors w data) ->
  exists errors,
    sorted_by_path (iter_errors w data) = Some errors /\
    Permutation (iter_errors w data) errors /\
    ordered errors /\
    load_config w p =
    raise (ValidationError (String.concat "; " (map format_error errors))).
Proof.
  intros Hr Hj Hne Hc. unfold load_config. rewrite Hr, Hj.
  destruct (sorted_by_path_total _ Hc) as [s Hs]. rewrite Hs.
  pose proof (sorted_by_path_perm _ _ Hs) as P.
  exists s. split; [reflexivity|]. split; [exact P|].
  split; [exact (sorted_by_path_ordered _ _ Hs)|].
  destruct s as [|e s]; [|reflexivity].
  apply Permutation_sym, Permutation_nil in P. contradiction.
Qed.

(** [load_config] decides by the schema validator alone: a document that
    was read and parsed is returned exactly when the validator reports no
    error for it.  The script makes no other check of the document. *)
Lemma load_config_accepts_iff w p text data :
  read_text w p = Some text ->
  json_loads w text = Some data ->
  (outcome (load_config w p) = Ok data <-> iter_errors w data = []).
Proof.
  intros Hr Hj. unfold load_config. rewrite Hr, Hj. split.
  - destruct (sorted_by_path (iter_errors w data)) as [[|e s]|] eqn:E;
      try discriminate.
    intros _. apply sorted_by_path_perm in E.
    apply Permutation_sym, Permutation_nil in E. exact E.
  - intros ->. reflexivity.
Qed.

(** ** Dispatch over the selected functions *)

Lemma selected_unknown k :
  mem k (keys PHASES) = false -> selected (Some k) = [].
Proof.
  intros Hk. unfold selected. simpl. unfold mem in Hk. simpl in Hk.
  repeat match goal with
         | H : (?a || ?b)%bool = false |- _ =>
             apply orb_false_iff in H; destruct H
         end.
  repeat match goal with
         | H : (k =? _)%string = false |- _ => rewrite H; clear H
         end.
  reflexivity.
Qed.

(** Case analysis on a selector: none, one of the six keys, or unknown. *)
Ltac by_selector p :=
  let k := fresh "k" in
  let Hk := fresh "Hk" in
  destruct p as [k|];
  [ destruct (mem k (keys PHASES)) eqn:Hk;
    [ each_phase Hk | rewrite (selected_unknown k Hk) ]
  | ].

Lemma selected_one p :
  mem p (keys PHASES) = true ->
  exists f, In (p, f) PHASES /\ selected (Some p) = [f].
Proof.
  intros Hp. each_phase Hp; eexists; (split; [|reflexivity]); simpl; tauto.
Qed.

(** Every function of a run is called with the context [main] built. *)
Lemma contexts_run_trace p v ctx td :
  contexts (run_trace v (selected p) ctx td) = map (fun _ => ctx) (selected p).
Proof.
  by_selector p; destruct td; reflexivity.
Qed.

(** ** The phase functions *)

(** No phase function of the script raises. *)
Lemma PHASES_never_raise k f ctx :
  In (k, f) PHASES -> outcome (call f ctx) = Ok tt.
Proof.
  simpl. intros H.
  repeat (destruct H as [H|H]; [inversion H; subst; reflexivity|]).
  contradiction.
Qed.

(** * Properties of a run *)

(** ** Forward order *)

(** C6. The registry lists the phase functions in the order precheck,
    storage_export, aggregator_connect, opus_raid, reexport, verify, and a
    forward run without a phase selector whose config loads calls them in
    exactly that order, each phase announcing itself under that name, and
    returns normally. *)
Theorem forward_run_follows_fixed_order w argv c cfg :
  opt_config argv = Some c ->
  opt_phase argv = None ->
  flag_teardown argv = false ->
  outcome (load_config w c) = Ok cfg ->
  calls (trace (main w argv)) =
    ["phase_precheck"; "phase_storage"; "phase_agg"; "phase_raid";
     "phase_reexport"; "phase_verify"]
  /\ announced (trace (main w argv)) = spec_forward_order
  /\ map fn_name (values PHASES) = calls (trace (main w argv))
  /\ outcome (main w argv) = Ok tt.
Proof.
  intros Hc Hp Ht L.
  rewrite (main_loaded w argv c cfg Hc (accepted_no_selector argv c Hc Hp) L).
  rewrite Hp, Ht. repeat split.
Qed.

Lemma forward_run_follows_fixed_order_witness :
  announced (trace (main Sample.world (Sample.argv (Some "sn1,agg1") None false false)))
  = spec_forward_order.
Proof.
  apply (forward_run_follows_fixed_order Sample.world
           (Sample.argv (Some "sn1,agg1") None false false)
           "fabric.json" Sample.fabric); reflexivity.
Defined.

(** ** Teardown *)

(** C1, as stated, fails: a teardown run over a config that loads announces
    the six phases in forward order, not the four phases of the
    specification's teardown order. *)
Lemma teardown_run_not_reversed :
  let argv := Sample.argv None None false true in
  direction_of argv = Teardown
  /\ announced (trace (main Sample.world argv)) = spec_forward_order
  /\ announced (trace (main Sample.world argv)) <> spec_ordered_phases Teardown
  /\ announced (trace (main Sample.world argv)) <> rev spec_forward_order.
Proof.
  cbv zeta. repeat split; try reflexivity; vm_compute; discriminate.
Qed.

(** C1, amended. A teardown run without a phase selector whose config loads
    calls the six phase functions in forward order, the same functions a
    forward run calls and no revert action, then logs the warning that
    teardown is not implemented and returns normally. *)
Theorem teardown_run_is_forward_run_with_warning w argv c cfg :
  opt_config argv = Some c ->
  opt_phase argv = None ->
  flag_teardown argv = true ->
  outcome (load_config w c) = Ok cfg ->
  calls (trace (main w argv)) = map fn_name (values PHASES)
  /\ announced (trace (main w argv)) = spec_forward_order
  /\ (exists t, trace (main w argv) =
        t ++ [Log WARNING "teardown mode is not yet implemented" []])
  /\ outcome (main w argv) = Ok tt.
Proof.
  intros Hc Hp Ht L.
  rewrite (main_loaded w argv c cfg Hc (accepted_no_selector argv c Hc Hp) L).
  rewrite Hp, Ht. unfold run_trace, trace, outcome, fst, snd.
  repeat split.
  eexists (_ :: _). rewrite <- app_comm_cons. reflexivity.
Qed.

Lemma teardown_run_is_forward_run_with_warning_witness :
  calls (trace (main Sample.world (Sample.argv None None false true)))
  = map fn_name (values PHASES).
Proof.
  apply (teardown_run_is_forward_run_with_warning Sample.world
           (Sample.argv None None false true)
           "fabric.json" Sample.fabric); reflexivity.
Defined.



(** ** Phase selector *)

(** C4, as stated, fails in its second half: a teardown run without a phase
    selector does not follow the teardown direction's order, it announces
    the phases in forward order. *)
Lemma unselected_teardown_run_ignores_direction :
  let argv := Sample.argv (Some "sn1") None true true in
  opt_phase argv = None
  /\ direction_of argv = Teardown
  /\ announced (trace (main Sample.world argv))
     <> spec_ordered_phases (direction_of argv)
  /\ announced (trace (main Sample.world argv)) = spec_ordered_phases Forward.
Proof.
  cbv zeta. repeat split. vm_compute. discriminate.
Qed.

(** C4, amended. In a run whose config loads: if the phase selector is set
    to a key of the registry, exactly the function under that key is called
    and no other; if it is unset, all six functions are called in the
    forward order of the registry, whatever the run direction. *)
Theorem phase_selector_dispatch w argv c cfg :
  opt_config argv = Some c ->
  accepted PHASES argv ->
  outcome (load_config w c) = Ok cfg ->
  match opt_phase argv with
  | Some p =>
      exists f, In (p, f) PHASES
                /\ calls (trace (main w argv)) = [fn_name f]
                /\ length (announced (trace (main w argv))) = 1
  | None =>
      calls (trace (main w argv)) = map fn_name (values PHASES)
      /\ announced (trace (main w argv)) = spec_forward_order
  end.
Proof.
  intros Hc Hacc L. rewrite (main_loaded w argv c cfg Hc Hacc L).
  destruct Hacc as [_ Hp].
  destruct (opt_phase argv) as [p|].
  - each_phase Hp; destruct (flag_teardown argv);
      first [ exists phase_precheck; split; [simpl; tauto | split; reflexivity]
            | exists phase_storage; split; [simpl; tauto | split; reflexivity]
            | exists phase_agg; split; [simpl; tauto | split; reflexivity]
            | exists phase_raid; split; [simpl; tauto | split; reflexivity]
            | exists phase_reexport; split; [simpl; tauto | split; reflexivity]
            | exists phase_verify; split; [simpl; tauto | split; reflexivity] ].
  - destruct (flag_teardown argv); split; reflexivity.
Qed.

Lemma phase_selector_dispatch_witness :
  exists f, In ("raid", f) PHASES
            /\ calls (trace (main Sample.world
                               (Sample.argv None (Some "raid") false false)))
               = [fn_name f]
            /\ length (announced (trace (main Sample.world
                               (Sample.argv None (Some "raid") false false))))
               = 1.
Proof.
  apply (phase_selector_dispatch Sample.world
           (Sample.argv None (Some "raid") false false)
           "fabric.json" Sample.fabric).
  - reflexivity.
  - split; [discriminate | reflexivity].
  - reflexivity.
Defined.

(** ** Host filter *)

(** C5, as stated, fails: a run limited to hostX, which occurs nowhere in
    the config, raises nothing and calls all six phase functions. *)
Lemma unknown_host_is_not_rejected :
  let argv := Sample.argv (Some "hostX") None false false in
  limit_of (opt_limit argv) = Some ["hostX"]
  /\ mentions "hostX" Sample.fabric = false
  /\ is_raise (outcome (main Sample.world argv)) = false
  /\ calls (trace (main Sample.world argv)) =
     ["phase_precheck"; "phase_storage"; "phase_agg"; "phase_raid";
      "phase_reexport"; "phase_verify"].
Proof.
  cbv zeta. repeat split.
Qed.

(** C5, amended. A run whose host filter names a host that occurs nowhere in
    the config is not rejected: when the config loads, the selected phase
    functions are all called, each with the filter entries unchecked in its
    context, and the run returns normally. *)
Theorem host_filter_is_not_validated w argv c cfg hosts h :
  opt_config argv = Some c ->
  accepted PHASES argv ->
  outcome (load_config w c) = Ok cfg ->
  limit_of (opt_limit argv) = Some hosts ->
  In h hosts ->
  mentions h cfg = false ->
  outcome (main w argv) = Ok tt
  /\ calls (trace (main w argv)) = map fn_name (selected (opt_phase argv))
  /\ selected (opt_phase argv) <> []
  /\ Forall (fun ctx => limit ctx = Some hosts) (contexts (trace (main w argv))).
Proof.
  intros Hc Hacc L Hl _ _. rewrite (main_loaded w argv c cfg Hc Hacc L).
  unfold trace, outcome, fst, snd.
  rewrite calls_run_trace, contexts_run_trace.
  repeat split.
  - destruct Hacc as [_ Hp]. destruct (opt_phase argv) as [p|].
    + destruct (selected_one p Hp) as [f [_ ->]]. discriminate.
    + discriminate.
  - apply Forall_forall. intros ctx Hin. apply in_map_iff in Hin.
    destruct Hin as [_ [<- _]]. exact Hl.
Qed.

Lemma host_filter_is_not_validated_witness :
  outcome (main Sample.world (Sample.argv (Some "sn1,hostX") None false false))
  = Ok tt.
Proof.
  apply (host_filter_is_not_validated Sample.world
           (Sample.argv (Some "sn1,hostX") None false false)
           "fabric.json" Sample.fabric ["sn1"; "hostX"] "hostX").
  - reflexivity.
  - split; [discriminate | exact I].
  - reflexivity.
  - reflexivity.
  - right; left; reflexivity.
  - reflexivity.
Defined.

(** ** Fatal errors before the run *)

(** C8, as stated, fails for an invalid scope: a run limited to two hosts
    that occur nowhere in the config does not abort, it calls all six phase
    functions and returns normally. *)
Lemma invalid_scope_does_not_abort :
  let argv := Sample.argv (Some "ghost1,ghost2") None false false in
  limit_of (opt_limit argv) = Some ["ghost1"; "ghost2"]
  /\ mentions "ghost1" Sample.fabric = false
  /\ mentions "ghost2" Sample.fabric = false
  /\ outcome (main Sample.world argv) = Ok tt
  /\ length (calls (trace (main Sample.world argv))) = 6.
Proof.
  cbv zeta. repeat split.
Qed.

(** C8, amended. A config that violates the schema aborts the run before any
    phase function is called, when only logging has been set up, with one
    ValidationError whose message joins every violation the validator
    found, not only the first, sorted by path. *)
Theorem schema_violations_abort_and_are_all_reported w argv c text data :
  opt_config argv = Some c ->
  accepted PHASES argv ->
  read_text w c = Some text ->
  json_loads w text = Some data ->
  iter_errors w data <> [] ->
  comparable (iter_errors w data) ->
  exists errors,
    sorted_by_path (iter_errors w data) = Some errors
    /\ Permutation (iter_errors w data) errors
    /\ ordered errors
    /\ outcome (main w argv) =
       Raise (ValidationError (String.concat "; " (map format_error errors)))
    /\ (forall e, In e (iter_errors w data) ->
          occurs_in (format_error e)
                    (String.concat "; " (map format_error errors)))
    /\ trace (main w argv) = [SetupLogging (flag_verbose argv)]
    /\ calls (trace (main w argv)) = [].
Proof.
  intros Hc Hacc Hr Hj Hne Hcmp.
  destruct (load_config_invalid w c text data Hr Hj Hne Hcmp)
    as [errors [Hs [P [Ho E]]]].
  exists errors.
  rewrite (main_not_loaded w argv c
             (ValidationError (String.concat "; " (map format_error errors)))
             Hc Hacc) by (rewrite E; reflexivity).
  repeat split; try assumption.
  intros e He. apply occurs_in_concat, in_map.
  apply Permutation_in with (l := iter_errors w data); assumption.
Qed.

Lemma sample_violations_comparable : comparable Sample.violations.
Proof.
  intros a b Ha Hb. simpl in Ha, Hb.
  repeat (destruct Ha as [Ha|Ha]; [subst a|]); try contradiction;
    repeat (destruct Hb as [Hb|Hb]; [subst b|]); try contradiction;
    discriminate.
Qed.

Lemma schema_violations_abort_and_are_all_reported_witness :
  exists errors,
    sorted_by_path Sample.violations = Some errors
    /\ Permutation Sample.violations errors
    /\ ordered errors
    /\ outcome (main Sample.strict_world (Sample.argv None None false false))
       = Raise (ValidationError (String.concat "; " (map format_error errors)))
    /\ (forall e, In e Sample.violations ->
          occurs_in (format_error e)
                    (String.concat "; " (map format_error errors)))
    /\ trace (main Sample.strict_world (Sample.argv None None false false))
       = [SetupLogging false]
    /\ calls (trace (main Sample.strict_world
                       (Sample.argv None None false false))) = [].
Proof.
  apply (schema_violations_abort_and_are_all_reported Sample.strict_world
           (Sample.argv None None false false)
           "fabric.json" Sample.fabric_text Sample.fabric).
  - reflexivity.
  - split; [discriminate | exact I].
  - reflexivity.
  - reflexivity.
  - discriminate.
  - exact sample_violations_comparable.
Defined.

(** The message of the sample run, as Python builds it. *)
Example sample_validation_message :
  outcome (main Sample.strict_world (Sample.argv None None false false)) =
  Raise (ValidationError
    ": 'raid' is a required property; aggregators/0: 'mgmt_ip' is a required property; storage_nodes/0: 'nvme' is a required property").
Proof. reflexivity. Qed.

(** ** Dry run *)




(** ** Idempotence *)




(** * Further properties of the script *)

(** ** Splitting the host limit *)

Lemma split_on_nonempty sep s : split_on sep s <> [].
Proof.
  destruct s as [|c rest]; simpl; [discriminate|].
  destruct (Ascii.eqb c sep); [discriminate|].
  destruct (split_on sep rest); discriminate.
Qed.

Lemma split_on_free sep x :
  contains sep x = false -> split_on sep x = [x].
Proof.
  induction x as [|c x IH]; simpl; intros H; [reflexivity|].
  apply orb_false_iff in H. destruct H as [Hc Hx].
  rewrite Hc, (IH Hx). reflexivity.
Qed.

Lemma split_on_append sep x rest :
  contains sep x = false ->
  split_on sep (x ++ String sep rest) = x :: split_on sep rest.
Proof.
  induction x as [|c x IH]; simpl; intros H.
  - rewrite Ascii.eqb_refl. reflexivity.
  - apply orb_false_iff in H. destruct H as [Hc Hx].
    rewrite Hc, (IH Hx). reflexivity.
Qed.

(** X1. Joining the pieces of [s.split(",")] with commas gives [s] back:
    the split loses nothing of the limit string. *)
Theorem join_split_on sep s :
  String.concat (String sep EmptyString) (split_on sep s) = s.
Proof.
  induction s as [|c rest IH]; [reflexivity|].
  simpl split_on. pose proof (split_on_nonempty sep rest) as Hne.
  destruct (Ascii.eqb c sep) eqn:E.
  - apply Ascii.eqb_eq in E. subst c.
    destruct (split_on sep rest) as [|h t]; [contradiction|].
    change (String.concat (String sep "") ("" :: h :: t))
      with (String sep (String.concat (String sep "") (h :: t))).
    rewrite IH. reflexivity.
  - destruct (split_on sep rest) as [|h t]; [contradiction|].
    destruct t as [|z t].
    + simpl in IH. simpl. rewrite IH. reflexivity.
    + change (String.concat (String sep "") (String c h :: z :: t))
        with (String c (String.concat (String sep "") (h :: z :: t))).
      rewrite IH. reflexivity.
Qed.

(** X2. Splitting a comma-joined list of host names gives the list back,
    provided the list is not empty and no name contains a comma. *)
Theorem split_on_join sep l :
  l <> [] ->
  (forall x, In x l -> contains sep x = false) ->
  split_on sep (String.concat (String sep EmptyString) l) = l.
Proof.
  induction l as [|x l IH]; intros Hne Hfree; [contradiction|].
  destruct l as [|y l].
  - simpl. apply split_on_free, Hfree. left; reflexivity.
  - change (String.concat (String sep "") (x :: y :: l))
      with (x ++ String sep (String.concat (String sep "") (y :: l)))%string.
    rewrite split_on_append by (apply Hfree; left; reflexivity).
    rewrite IH; [reflexivity | discriminate |].
    intros z Hz. apply Hfree. right; exact Hz.
Qed.

Lemma split_on_join_witness :
  split_on comma (String.concat "," ["sn1"; ""; "agg1"]) = ["sn1"; ""; "agg1"].
Proof.
  apply (split_on_join comma ["sn1"; ""; "agg1"]).
  - discriminate.
  - intros x Hx. simpl in Hx.
    repeat (destruct Hx as [Hx|Hx]; [subst x; reflexivity|]). contradiction.
Defined.

(** X3. [s.split(",")] has one piece more than [s] has commas, and no piece
    contains a comma; in particular the result is never empty and an empty
    string gives one empty piece. *)
Theorem split_on_pieces sep s :
  length (split_on sep s) = S (count_char sep s)
  /\ (forall x, In x (split_on sep s) -> contains sep x = false).
Proof.
  induction s as [|c rest [IHn IHf]]; simpl.
  - split; [reflexivity|]. intros x [<-|[]]. reflexivity.
  - destruct (Ascii.eqb c sep) eqn:E.
    + split; [simpl; rewrite IHn; reflexivity|].
      intros x [<-|Hx]; [reflexivity | apply IHf; exact Hx].
    + pose proof (split_on_nonempty sep rest) as Hne.
      destruct (split_on sep rest) as [|h t]; [contradiction|].
      split; [simpl in *; exact IHn|].
      intros x [<-|Hx].
      * simpl. rewrite E. apply IHf. left; reflexivity.
      * apply IHf. right; exact Hx.
Qed.

(** ** The host limit in the precheck record *)

Lemma limit_or_all_limit_of cfg l d :
  limit_or_all (mkContext cfg (limit_of l) d) =
  match l with
  | None => ArgStr "all"
  | Some EmptyString => ArgStr "all"
  | Some s => ArgList (split_on comma s)
  end.
Proof.
  destruct l as [[|c s]|]; try reflexivity.
  unfold limit_or_all, limit_of, limit.
  pose proof (split_on_nonempty comma (String c s)) as Hne.
  destruct (split_on comma (String c s)); [contradiction | reflexivity].
Qed.

(** X4. In a run over all phases whose config loads, the first record
    logged is the precheck record, and it names "all" exactly when
    [--limit] is absent or empty; otherwise it carries the pieces of the
    limit string, empty pieces included. *)
Theorem precheck_record_names_limit w argv c cfg :
  opt_config argv = Some c ->
  opt_phase argv = None ->
  outcome (load_config w c) = Ok cfg ->
  exists rest,
    records (trace (main w argv)) =
    (INFO, "precheck phase for hosts: %s",
     [match opt_limit argv with
      | None => ArgStr "all"
      | Some EmptyString => ArgStr "all"
      | Some s => ArgList (split_on comma s)
      end]) :: rest.
Proof.
  intros Hc Hp L.
  rewrite (main_loaded w argv c cfg Hc (accepted_no_selector argv c Hc Hp) L).
  rewrite Hp.
  rewrite <- (limit_or_all_limit_of cfg (opt_limit argv) (flag_dry_run argv)).
  destruct (flag_teardown argv); eexists; reflexivity.
Qed.

Lemma precheck_record_names_limit_witness :
  exists rest,
    records (trace (main Sample.world (Sample.argv (Some "sn1,,agg1") None false false))) =
    (INFO, "precheck phase for hosts: %s", [ArgList ["sn1"; ""; "agg1"]]) :: rest.
Proof.
  apply (precheck_record_names_limit Sample.world
           (Sample.argv (Some "sn1,,agg1") None false false)
           "fabric.json" Sample.fabric); reflexivity.
Defined.

(** ** The parser *)

Lemma mem_In s l : mem s l = true <-> In s l.
Proof.
  unfold mem. rewrite existsb_exists. split.
  - intros [x [Hin Hx]]. apply String.eqb_eq in Hx. subst x. exact Hin.
  - intros H. exists s. split; [exact H | apply String.eqb_refl].
Qed.

(** X5. When [parse_args] returns a namespace, for the phase table of any
    registry: [--config] was given, every option is copied unchanged, the
    phase, if any, is a key of the registry, and parsing had no effect. *)
Theorem parse_args_result phases argv ns :
  outcome (parse_args_with phases argv) = Ok ns ->
  opt_config argv = Some (ns_config ns)
  /\ ns_limit ns = opt_limit argv
  /\ ns_phase ns = opt_phase argv
  /\ ns_dry_run ns = flag_dry_run argv
  /\ ns_verbose ns = flag_verbose argv
  /\ ns_teardown ns = flag_teardown argv
  /\ match ns_phase ns with
     | Some p => In p (keys phases)
     | None => True
     end
  /\ trace (parse_args_with phases argv) = [].
Proof.
  unfold parse_args_with.
  destruct (opt_phase argv) as [p|] eqn:Ep.
  - destruct (mem p (keys phases)) eqn:Hp; [|discriminate].
    destruct (opt_config argv) as [c|]; [|discriminate].
    simpl. intros H. inversion H; subst ns; simpl.
    repeat split. apply mem_In. exact Hp.
  - destruct (opt_config argv) as [c|]; [|discriminate].
    simpl. intros H. inversion H; subst ns; simpl. repeat split.
Qed.

Lemma parse_args_result_witness :
  match ns_phase (mkNamespace "fabric.json" None (Some "agg") false false false) with
  | Some p => In p (keys PHASES)
  | None => True
  end.
Proof.
  apply (parse_args_result PHASES (Sample.argv None (Some "agg") false false)
           (mkNamespace "fabric.json" None (Some "agg") false false false)).
  reflexivity.
Defined.

Lemma run_with_starts phases w ns :
  exists t, trace (run_with phases w ns) = SetupLogging (ns_verbose ns) :: t.
Proof.
  unfold run_with, setup_logging, emit, bind.
  match goal with |- context [let (t', r) := ?m in _] => destruct m as [t' r] end.
  eexists. reflexivity.
Qed.

(** X6. For any registry, a command line without [--config] or with a phase
    that is not a key of the registry ends in SystemExit(2) before [main]
    sets up logging, loads the config or calls a phase function, whatever
    the file system holds.  A command line the parser accepts starts by
    setting up logging. *)
Theorem rejected_run_stops_before_logging phases w argv :
  (~ accepted phases argv ->
     main_with phases w argv = ([], Raise (SystemExit 2)))
  /\ (accepted phases argv ->
        exists t, trace (main_with phases w argv)
                  = SetupLogging (flag_verbose argv) :: t).
Proof.
  split; [apply main_rejected|].
  intros [Hc Hp]. destruct (opt_config argv) as [c|] eqn:Ec; [|contradiction].
  rewrite (main_accepted phases w argv c Ec Hp).
  apply (run_with_starts phases w
           (mkNamespace c (opt_limit argv) (opt_phase argv)
              (flag_dry_run argv) (flag_verbose argv) (flag_teardown argv))).
Qed.

(** ** The loader *)

(** X7. [load_config] returns a document exactly when the file could be
    read, its text parsed to that document and the validator found no
    violation: the document comes back as parsed, and no document with a
    violation is ever returned. *)
Theorem load_config_returns w p data :
  outcome (load_config w p) = Ok data <->
  exists text, read_text w p = Some text
               /\ json_loads w text = Some data
               /\ iter_errors w data = [].
Proof.
  unfold load_config. split.
  - destruct (read_text w p) as [text|]; [|discriminate].
    destruct (json_loads w text) as [d|] eqn:J; [|discriminate].
    destruct (sorted_by_path (iter_errors w d)) as [[|e s]|] eqn:E;
      try discriminate.
    simpl. intros H. inversion H; subst d.
    exists text. repeat split; [exact J|].
    apply sorted_by_path_perm in E.
    apply Permutation_sym, Permutation_nil in E. exact E.
  - intros [text [Hr [Hj He]]]. rewrite Hr, Hj, He. reflexivity.
Qed.

(** X8. For any registry, when the config does not load (the file cannot be
    read, is not JSON or violates the schema), the run has set up logging
    and done nothing else: no phase function is called, the teardown warning
    is not logged, and the loader's exception leaves [main] as it is. *)
Theorem failed_load_runs_nothing phases w argv c e :
  opt_config argv = Some c ->
  accepted phases argv ->
  outcome (load_config w c) = Raise e ->
  main_with phases w argv = ([SetupLogging (flag_verbose argv)], Raise e).
Proof.
  intros Hc [_ Hp] L.
  rewrite (main_accepted phases w argv c Hc Hp).
  apply run_with_not_loaded. exact L.
Qed.

Lemma failed_load_runs_nothing_witness :
  main Sample.world
    (mkArgv (Some "missing.json") None None false true true)
  = ([SetupLogging true], Raise (OSError "missing.json")).
Proof.
  apply (failed_load_runs_nothing PHASES Sample.world
           (mkArgv (Some "missing.json") None None false true true)
           "missing.json" (OSError "missing.json")).
  - reflexivity.
  - split; [discriminate | exact I].
  - reflexivity.
Defined.

(** ** Lookup in the registry *)

Lemma getitem_absent d k :
  mem k (keys d) = false -> getitem d k = raise (KeyError k).
Proof.
  induction d as [|[k' f] d IH]; simpl; intros H; [reflexivity|].
  apply orb_false_iff in H. destruct H as [Hk Hd].
  rewrite Hk. apply IH. exact Hd.
Qed.

Lemma getitem_found d k f : getitem d k = ret f -> In (k, f) d.
Proof.
  induction d as [|[k' g] d IH]; simpl; intros H; [discriminate|].
  destruct (String.eqb k k') eqn:E.
  - apply String.eqb_eq in E. subst k'. inversion H. left; reflexivity.
  - right. apply IH. exact H.
Qed.

Lemma getitem_present d k :
  mem k (keys d) = true -> exists f, getitem d k = ret f /\ In (k, f) d.
Proof.
  induction d as [|[k' g] d IH]; simpl; intros H; [discriminate|].
  destruct (String.eqb k k') eqn:E.
  - apply String.eqb_eq in E. subst k'. exists g. split; [|left]; reflexivity.
  - simpl in H. destruct (IH H) as [f [Hf Hin]]. exists f.
    split; [exact Hf | right; exact Hin].
Qed.

(** X9. In a registry with pairwise distinct keys, [d[k]] is the function
    bound to [k] and no other, and it raises KeyError for [k] exactly when
    [k] is not a key. *)
Theorem getitem_lookup d k f :
  NoDup (keys d) ->
  (In (k, f) d <-> getitem d k = ret f)
  /\ (mem k (keys d) = false <-> getitem d k = raise (KeyError k)).
Proof.
  intros Hnd. split; [split; [|apply getitem_found] | split; [apply getitem_absent|]].
  - induction d as [|[k' g] d IH]; simpl; intros H; [contradiction|].
    inversion Hnd as [|? ? Hnotin Hnd']; subst.
    destruct H as [H|H].
    + inversion H; subst. rewrite String.eqb_refl. reflexivity.
    + destruct (String.eqb k k') eqn:E.
      * apply String.eqb_eq in E. subst k'. exfalso. apply Hnotin.
        apply (in_map fst) in H. exact H.
      * apply IH; assumption.
  - intros H. destruct (mem k (keys d)) eqn:M; [|reflexivity].
    destruct (getitem_present d k M) as [g [Hg _]]. rewrite Hg in H.
    discriminate.
Qed.

Lemma getitem_lookup_witness :
  In ("raid", phase_raid) PHASES <-> getitem PHASES "raid" = ret phase_raid.
Proof.
  apply (getitem_lookup PHASES "raid" phase_raid PHASES_keys_NoDup).
Defined.

(** ** Runs over any registry *)

Lemma call_outcome f ctx : outcome (call f ctx) = outcome (fn_body f ctx).
Proof.
  unfold call, emit, bind. destruct (fn_body f ctx) as [t r]. reflexivity.
Qed.

Lemma call_trace f ctx :
  trace (call f ctx) = Call (fn_name f) ctx :: trace (fn_body f ctx).
Proof.
  unfold call, emit, bind. destruct (fn_body f ctx) as [t r]. reflexivity.
Qed.

Lemma for_each_returns fns ctx :
  (forall f, In f fns -> outcome (fn_body f ctx) = Ok tt) ->
  for_each fns ctx =
  (flat_map (fun f => Call (fn_name f) ctx :: trace (fn_body f ctx)) fns, Ok tt).
Proof.
  induction fns as [|f fns IH]; intros H; [reflexivity|].
  cbn [for_each flat_map].
  assert (Hf : outcome (call f ctx) = Ok tt)
    by (rewrite call_outcome; apply H; left; reflexivity).
  pose proof (call_trace f ctx) as Tf.
  rewrite IH by (intros g Hg; apply H; right; exact Hg).
  destruct (call f ctx) as [t r]. simpl in Hf, Tf. subst t r.
  reflexivity.
Qed.

Lemma dispatch_returns phases p ctx :
  match p with
  | Some k => mem k (keys phases) = true
  | None => True
  end ->
  (forall f, In f (values phases) -> outcome (fn_body f ctx) = Ok tt) ->
  outcome (dispatch phases p ctx) = Ok tt.
Proof.
  intros Hp Hok.
  destruct p as [[|c k]|]; simpl;
    try (rewrite (for_each_returns _ _ Hok); reflexivity).
  destruct (getitem_present phases (String c k) Hp) as [f [Hf Hin]].
  rewrite Hf, bind_ret_l, call_outcome. apply Hok.
  apply (in_map snd) in Hin. exact Hin.
Qed.

(** X10. The lookup [PHASES[args.phase]] cannot fail: for any registry, the
    phase of a namespace that [parse_args] returned is a key the lookup
    finds, and when the phase functions do not raise, the dispatch of
    [main] on that namespace returns normally in every context. *)
Theorem parsed_phase_is_always_found phases argv ns ctx :
  outcome (parse_args_with phases argv) = Ok ns ->
  (forall f, In f (values phases) -> outcome (fn_body f ctx) = Ok tt) ->
  (forall p, ns_phase ns = Some p ->
     exists f, getitem phases p = ret f /\ In (p, f) phases)
  /\ outcome (dispatch phases (ns_phase ns) ctx) = Ok tt.
Proof.
  intros Hparse Hok.
  assert (Hp : match ns_phase ns with
               | Some p => mem p (keys phases) = true
               | None => True
               end).
  { unfold parse_args_with in Hparse.
    destruct (opt_phase argv) as [p|] eqn:Ep.
    - destruct (mem p (keys phases)) eqn:Hm; [|discriminate].
      destruct (opt_config argv); [|discriminate].
      simpl in Hparse. inversion Hparse; subst ns. simpl. exact Hm.
    - destruct (opt_config argv); [|discriminate].
      simpl in Hparse. inversion Hparse; subst ns. exact I. }
  split.
  - intros p E. rewrite E in Hp. apply getitem_present. exact Hp.
  - apply dispatch_returns; assumption.
Qed.

Lemma parsed_phase_is_always_found_witness :
  outcome (dispatch PHASES (Some "raid") (mkContext Sample.fabric None false))
  = Ok tt.
Proof.
  apply (parsed_phase_is_always_found PHASES
           (Sample.argv None (Some "raid") false false)
           (mkNamespace "fabric.json" None (Some "raid") false false false)
           (mkContext Sample.fabric None false)).
  - reflexivity.
  - intros f Hf. apply in_map_iff in Hf. destruct Hf as [[k g] [<- Hin]].
    rewrite <- call_outcome. apply (PHASES_never_raise k g _ Hin).
Defined.

(** X11. For any registry whose functions return normally, a run without a
    phase selector whose config loads calls every function of the registry
    exactly once, in the order of the registry and with the same context,
    after setting up logging; the teardown warning, if any, comes last. *)
Theorem unselected_run_calls_registry_in_order phases w argv c cfg :
  opt_config argv = Some c ->
  opt_phase argv = None ->
  outcome (load_config w c) = Ok cfg ->
  (forall f, In f (values phases) ->
     outcome (fn_body f (context_of cfg argv)) = Ok tt) ->
  main_with phases w argv =
  (SetupLogging (flag_verbose argv)
     :: flat_map (fun f => Call (fn_name f) (context_of cfg argv)
                             :: trace (fn_body f (context_of cfg argv)))
          (values phases)
     ++ (if flag_teardown argv
         then [Log WARNING "teardown mode is not yet implemented" []]
         else []),
   Ok tt).
Proof.
  intros Hc Hp L Hok.
  rewrite (main_accepted phases w argv c Hc) by (rewrite Hp; exact I).
  rewrite (run_with_loaded _ _ _ cfg) by exact L.
  cbn [ns_verbose ns_phase ns_limit ns_dry_run ns_teardown].
  fold (context_of cfg argv). rewrite Hp. cbn [dispatch].
  rewrite (for_each_returns _ _ Hok).
  destruct (flag_teardown argv); reflexivity.
Qed.

Lemma unselected_run_calls_registry_in_order_witness :
  calls (trace (main_with [("verify", phase_verify); ("precheck", phase_precheck)]
                  Sample.world (Sample.argv None None false true)))
  = ["phase_verify"; "phase_precheck"].
Proof.
  rewrite (unselected_run_calls_registry_in_order
             [("verify", phase_verify); ("precheck", phase_precheck)]
             Sample.world (Sample.argv None None false true)
             "fabric.json" Sample.fabric).
  - reflexivity.
  - reflexivity.
  - reflexivity.
  - reflexivity.
  - intros f [<-|[<-|[]]]; reflexivity.
Defined.

(** X12. No phase function reads the configuration: two runs with the same
    command line whose configs load, whatever the two documents are, call
    the same functions and log the same records. *)
Theorem run_does_not_depend_on_config w1 w2 argv c cfg1 cfg2 :
  opt_config argv = Some c ->
  accepted PHASES argv ->
  outcome (load_config w1 c) = Ok cfg1 ->
  outcome (load_config w2 c) = Ok cfg2 ->
  calls (trace (main w1 argv)) = calls (trace (main w2 argv))
  /\ records (trace (main w1 argv)) = records (trace (main w2 argv))
  /\ outcome (main w1 argv) = outcome (main w2 argv).
Proof.
  intros Hc Hacc L1 L2.
  rewrite (main_loaded w1 argv c cfg1 Hc Hacc L1).
  rewrite (main_loaded w2 argv c cfg2 Hc Hacc L2).
  unfold trace, outcome, fst, snd. rewrite !calls_run_trace.
  repeat split.
  by_selector (opt_phase argv); destruct (flag_teardown argv); reflexivity.
Qed.

Lemma run_does_not_depend_on_config_witness :
  records (trace (main Sample.world (Sample.argv (Some "sn1") None false false)))
  = records (trace (main (mkWorld (fun _ => Some "[]") (fun _ => Some (JArr []))
                                  (fun _ => []))
                         (Sample.argv (Some "sn1") None false false))).
Proof.
  apply (run_does_not_depend_on_config Sample.world
           (mkWorld (fun _ => Some "[]") (fun _ => Some (JArr [])) (fun _ => []))
           (Sample.argv (Some "sn1") None false false)
           "fabric.json" Sample.fabric (JArr [])).
  - reflexivity.
  - split; [discriminate | exact I].
  - reflexivity.
  - reflexivity.
Defined.

(** ** The order of the reported violations *)

(** X13. When [sorted(errors, key=lambda e: e.path)] raises no TypeError,
    its result holds the same violations as the validator reported and no
    violation stands before one with a strictly smaller path: the message
    of the ValidationError lists the violations by ascending path. *)
Theorem sorted_by_path_sorts l r :
  sorted_by_path l = Some r -> Permutation l r /\ ordered r.
Proof.
  intros H. split; [apply sorted_by_path_perm; exact H|].
  revert r H. induction l as [|e l IH]; simpl; intros r H.
  - inversion H. exact I.
  - destruct (sorted_by_path l) as [s|]; [|discriminate].
    apply (insert_by_path_ordered e s r H). apply IH. reflexivity.
Qed.

Lemma sorted_by_path_sorts_witness :
  ordered [ mkSchemaError [] "'raid' is a required property";
            mkSchemaError [Key "aggregators"; Idx 0] "'mgmt_ip' is a required property";
            mkSchemaError [Key "storage_nodes"; Idx 0] "'nvme' is a required property" ].
Proof.
  apply (sorted_by_path_sorts Sample.violations). reflexivity.
Defined.

(** X14. The sort is stable on input that is already in order: a list in
    which no violation stands before one with a strictly smaller path comes
    back unchanged, so violations of one path keep the validator's order
    and sorting twice changes nothing more. *)
Theorem sorted_by_path_keeps_ordered l :
  ordered l -> sorted_by_path l = Some l.
Proof.
  induction l as [|e l IH]; intros H; [reflexivity|].
  simpl. destruct l as [|x l].
  - reflexivity.
  - destruct H as [Hx Hl]. rewrite (IH Hl).
    simpl. rewrite Hx. reflexivity.
Qed.

Lemma sorted_by_path_keeps_ordered_witness :
  sorted_by_path [ mkSchemaError [Key "hosts"] "first";
                   mkSchemaError [Key "hosts"] "second";
                   mkSchemaError [Key "hosts"; Idx 2] "third" ]
  = Some [ mkSchemaError [Key "hosts"] "first";
           mkSchemaError [Key "hosts"] "second";
           mkSchemaError [Key "hosts"; Idx 2] "third" ].
Proof.
  apply sorted_by_path_keeps_ordered. simpl. repeat split.
Defined.

(** ** Where the records go *)



(** X16. In a fresh process every record a run logs is emitted exactly once
    on the console and once into the JSONL file, in the order logged, with
    or without [--verbose]: the script logs nothing below INFO. *)
Theorem every_record_reaches_console_and_file w argv :
  emissions fresh_root (trace (main w argv)) =
  flat_map (fun r => [(Console, r); (JsonlFile, r)])
           (records (trace (main w argv))).
Proof.
  destruct (main_shape w argv) as [Hn | c e Hc _ L | c cfg fns Hc _ L S];
    [reflexivity | reflexivity |].
  rewrite (selection_selected _ _ S). unfold trace, fst.
  by_selector (opt_phase argv);
    destruct (flag_verbose argv), (flag_teardown argv); reflexivity.
Qed.



(** X18. [--verbose] changes nothing a run emits: in a fresh process the
    run with the flag and the run without it call the same functions, end
    the same way and emit the same records on the same streams, because
    the flag only lowers the thresholds to DEBUG and the script logs
    nothing at DEBUG. *)
Theorem verbose_changes_no_output w argv :
  emissions fresh_root (trace (main w (set_verbose true argv))) =
  emissions fresh_root (trace (main w (set_verbose false argv)))
  /\ calls (trace (main w (set_verbose true argv))) =
     calls (trace (main w (set_verbose false argv)))
  /\ outcome (main w (set_verbose true argv)) =
     outcome (main w (set_verbose false argv)).
Proof.
  destruct (accepted_dec PHASES argv) as [Hacc|Hn].
  - assert (Hc : exists c, opt_config argv = Some c).
    { destruct Hacc as [H _]. destruct (opt_config argv) as [c|];
        [exists c; reflexivity | contradiction]. }
    destruct Hc as [c Hc].
    destruct (outcome (load_config w c)) as [cfg|e] eqn:L.
    + rewrite (main_loaded w (set_verbose true argv) c cfg Hc Hacc L).
      rewrite (main_loaded w (set_verbose false argv) c cfg Hc Hacc L).
      unfold trace, outcome, fst, snd.
      cbn [set_verbose opt_phase flag_verbose flag_teardown].
      rewrite !calls_run_trace. repeat split.
      by_selector (opt_phase argv); destruct (flag_teardown argv); reflexivity.
    + rewrite (main_not_loaded w (set_verbose true argv) c e Hc Hacc L).
      rewrite (main_not_loaded w (set_verbose false argv) c e Hc Hacc L).
      repeat split.
  - unfold main.
    rewrite (main_rejected PHASES w (set_verbose true argv)) by exact Hn.
    rewrite (main_rejected PHASES w (set_verbose false argv)) by exact Hn.
    repeat split.
Qed.

(** ** Reading the log *)

(** X19. The records of a run tell what was asked for: two runs whose
    configs load and that log the same records had the same phase selector
    and the same teardown flag, since every phase function logs a message
    of its own and only a teardown run logs the warning. *)
Theorem records_identify_selection w1 w2 argv1 argv2 c1 c2 cfg1 cfg2 :
  opt_config argv1 = Some c1 ->
  opt_config argv2 = Some c2 ->
  accepted PHASES argv1 ->
  accepted PHASES argv2 ->
  outcome (load_config w1 c1) = Ok cfg1 ->
  outcome (load_config w2 c2) = Ok cfg2 ->
  records (trace (main w1 argv1)) = records (trace (main w2 argv2)) ->
  opt_phase argv1 = opt_phase argv2
  /\ flag_teardown argv1 = flag_teardown argv2.
Proof.
  intros Hc1 Hc2 Hacc1 Hacc2 L1 L2.
  rewrite (main_loaded w1 argv1 c1 cfg1 Hc1 Hacc1 L1).
  rewrite (main_loaded w2 argv2 c2 cfg2 Hc2 Hacc2 L2).
  unfold trace, fst.
  destruct Hacc1 as [_ Hp1]. destruct Hacc2 as [_ Hp2].
  destruct (opt_phase argv1) as [p1|]; destruct (opt_phase argv2) as [p2|];
    try each_phase Hp1; try each_phase Hp2;
    destruct (flag_teardown argv1), (flag_teardown argv2);
    intros H; solve [split; reflexivity | discriminate H].
Qed.

Lemma records_identify_selection_witness :
  opt_phase (Sample.argv None (Some "agg") false true)
  = opt_phase (Sample.argv (Some "sn1") (Some "agg") true true)
  /\ flag_teardown (Sample.argv None (Some "agg") false true)
     = flag_teardown (Sample.argv (Some "sn1") (Some "agg") true true).
Proof.
  apply (records_identify_selection Sample.world Sample.world
           (Sample.argv None (Some "agg") false true)
           (Sample.argv (Some "sn1") (Some "agg") true true)
           "fabric.json" "fabric.json" Sample.fabric Sample.fabric);
    try reflexivity; split; try discriminate; reflexivity.
Defined.
